(** * coherence::lang::class_spec

    A shallow embedding of the member functions that the template
    [class_spec<T, E, I>] (include/public/coherence/lang/class_spec.hpp)
    generates for every managed class: [clone], [sizeOf], [_cast] and
    [_getClassId].

    A C++ member function may return or throw, and the capability query
    walks the hierarchy, so every member function is embedded in a small
    monad [run] that records the outcome (a returned value or a thrown
    exception) together with the number of member-function activations. *)

From Stdlib Require Import NArith Lia.
From stdpp Require Import gmap strings list.

Local Open Scope N_scope.

(** ** Values *)

(** [std::type_info]: the object [typeid(T)] denotes, identified by the name
    of the class. *)
Definition type_info : Type := string.

(** [coh_class_id]: the class identity token, compared with [==]. *)
Definition coh_class_id : Type := N.

(** [size64_t]: an unsigned 64-bit size. *)
Definition size64_t : Type := N.

Definition size64_modulus : N := 2 ^ 64.

(** Conversion of an unsigned value to [size64_t]. *)
Definition to_size64 (n : N) : size64_t := n mod size64_modulus.

(** Unsigned 64-bit addition, as an overriding [sizeOf] uses it. *)
Definition size64_add (a b : size64_t) : size64_t := to_size64 (a + b).

(** A managed instance, identified by its address; [this] is never null. *)
Definition object : Type := N.

(** [void*]: either [NULL] or the address of the sub-object of [this] that
    has static type [T], i.e. the value of [static_cast<const T*>(this)].
    Interfaces are inherited virtually and classes form a single line, so an
    instance has one sub-object per type. *)
Inductive void_ptr : Type :=
  | NULL : void_ptr
  | static_cast (T : type_info) (this : object) : void_ptr.

(** [TypedHandle<Object>]: a handle built from a pointer. *)
Inductive TypedHandle : Type :=
  | Handle (p : void_ptr) : TypedHandle.

(** ** Outcomes and runs *)

Inductive exception : Type :=
  | CloneNotSupportedException (ti : type_info) : exception.

Inductive outcome (A : Type) : Type :=
  | Return (a : A) : outcome A
  | Throw (e : exception) : outcome A.

Arguments Return {A} a.
Arguments Throw {A} e.

(** The outcome of a member function together with the number of member
    functions activated while computing it. *)
Record run (A : Type) : Type := Run { result : outcome A; steps : nat }.

Arguments Run {A} result steps.
Arguments result {A} r.
Arguments steps {A} r.

Definition ret {A : Type} (a : A) : run A := Run (Return a) 0.

Definition throw {A : Type} (e : exception) : run A := Run (Throw e) 0.

Definition bind {A B : Type} (m : run A) (k : A -> run B) : run B :=
  match result m with
  | Return a => Run (result (k a)) (steps m + steps (k a))
  | Throw e => Run (Throw e) (steps m)
  end.

(** One activation of a member function whose body is [body]. *)
Definition call {A : Type} (body : run A) : run A :=
  Run (result body) (S (steps body)).

#[global] Instance run_ret : MRet run := @ret.
#[global] Instance run_bind : MBind run := fun A B k m => bind m k.

(** ** Class declarations *)

(** What the class [T] being defined brings itself: its [typeid], its
    [sizeof], and the virtual functions it declares on its own.  A class that
    declares [sizeOf] hides the generated one; its body may call
    [super::sizeOf], which it receives as an argument. *)
Record class_decl : Type := ClassDecl {
  typeid : type_info;
  sizeof : N;
  own_sizeOf : option ((bool -> run size64_t) -> bool -> run size64_t);
  own_clone : option (run TypedHandle)
}.

(** [implements<I1, ..., I16>]: the directly declared interfaces, in order. *)
Definition implements : Type := list type_info.

(** A class of the hierarchy: the universal root [Object], or a class defined
    as [class T : public class_spec<T, extends<E>, implements<I...> >].  The
    parent is a class that is already defined, so a chain is finite and has
    no cycle. *)
Inductive class : Type :=
  | Object : class
  | class_spec (T : class_decl) (E : class) (I : implements) : class.

Definition Object_info : type_info := "coherence::lang::Object".

(** The type of a class. *)
Definition class_info (c : class) : type_info :=
  match c with
  | Object => Object_info
  | class_spec T _ _ => typeid T
  end.

(** The proper ancestors of a class, nearest first. *)
Fixpoint ancestors (c : class) : list type_info :=
  match c with
  | Object => []
  | class_spec _ E _ => class_info E :: ancestors E
  end.

(** Number of [class_spec] levels between a class and the root. *)
Fixpoint depth (c : class) : nat :=
  match c with
  | Object => O
  | class_spec _ E _ => S (depth E)
  end.

(** Number of interfaces declared directly, summed over the levels. *)
Fixpoint declared_interfaces (c : class) : nat :=
  match c with
  | Object => O
  | class_spec _ E Is => (length Is + declared_interfaces E)%nat
  end.

(** Every type whose token the hierarchy of a class knows: the class, its
    directly declared interfaces, and the same for each ancestor. *)
Fixpoint known_types (c : class) : list type_info :=
  match c with
  | Object => [Object_info]
  | class_spec T E Is => typeid T :: Is ++ known_types E
  end.

(** No class of the chain declares a [sizeOf] of its own. *)
Fixpoint generated_sizeOf (c : class) : Prop :=
  match c with
  | Object => True
  | class_spec T E _ => own_sizeOf T = None /\ generated_sizeOf E
  end.

(** An overriding [sizeOf] of the kind the deep size expects from a class
    with a contribution of its own: the deep size is [super::sizeOf(true)]
    plus [k], the shallow size is left to [super]. *)
Definition adding (k : size64_t) (super_sizeOf : bool -> run size64_t)
    (fDeep : bool) : run size64_t :=
  call (if fDeep
        then n ← super_sizeOf true; mret (size64_add n k)
        else super_sizeOf false).

(** A chain of classes derived one from the other on top of [base]; the head
    of [ds] is the most derived class. *)
Definition derive (ds : list (class_decl * implements)) (base : class)
    : class :=
  foldr (fun d E => class_spec d.1 E d.2) base ds.

(** ** Class identity tokens *)

(** Modelled from the spec: [COH_GENERATE_CLASS_ID], a macro defined outside
    this header.  The token of a class is assigned once, when the class is
    defined, from a process-wide counter, and kept in a table indexed by
    class; the table is only read afterwards. *)
Record registry : Type := Registry {
  next_token : coh_class_id;
  tokens : gmap type_info coh_class_id
}.

(** The registry of a process in which no class is defined yet.  Token [0]
    is the null token, which no class receives. *)
Definition no_classes : registry := Registry 1 ∅.

Definition COH_GENERATE_CLASS_ID (T : type_info) (r : registry) : registry :=
  match tokens r !! T with
  | Some _ => r
  | None => Registry (N.succ (next_token r)) (<[T := next_token r]> (tokens r))
  end.

(** The classes [Ts] defined one after the other. *)
Definition define_classes (Ts : list type_info) (r : registry) : registry :=
  foldl (fun r T => COH_GENERATE_CLASS_ID T r) r Ts.

(** Modelled from the spec: [COH_CLASS_ID(T)], the read of the table. *)
Definition registered_class_id (r : registry) (T : type_info)
    : coh_class_id :=
  default 0 (tokens r !! T).

(** What holds of every registry a process can reach: the counter is past
    the null token, a token in the table is not null and below the counter,
    and no two classes have the same one. *)
Definition registry_ok (r : registry) : Prop :=
  0 < next_token r /\
  (forall (T : type_info) (k : coh_class_id),
      tokens r !! T = Some k -> 0 < k < next_token r) /\
  (forall (T1 T2 : type_info) (k : coh_class_id),
      tokens r !! T1 = Some k -> tokens r !! T2 = Some k -> T1 = T2).

(** ** A small hierarchy

    [Leaf] extends [Middle] extends [Object]; both declare the interface
    [Comparable], [Leaf] declares [Runnable] as well.  The root takes 8
    units, [Middle] adds 16 and [Leaf] adds 24. *)

Definition Middle_decl : class_decl := ClassDecl "Middle" 24 None None.
Definition Leaf_decl : class_decl := ClassDecl "Leaf" 48 None None.

Definition Middle : class := class_spec Middle_decl Object ["Comparable"].
Definition Leaf : class :=
  class_spec Leaf_decl Middle ["Runnable"; "Comparable"].

(** The same classes when each one overrides [sizeOf] to add what it
    contributes. *)
Definition Middle_adding_decl : class_decl :=
  ClassDecl "Middle" 24 (Some (adding 16)) None.
Definition Leaf_adding_decl : class_decl :=
  ClassDecl "Leaf" 48 (Some (adding 24)) None.

Definition Middle_adding : class :=
  class_spec Middle_adding_decl Object ["Comparable"].
Definition Leaf_adding : class :=
  class_spec Leaf_adding_decl Middle_adding ["Runnable"; "Comparable"].




(** The tokens of the example, as [define_classes] assigns them. *)
Definition example_registry : registry :=
  define_classes
    [Object_info; "Comparable"; "Runnable"; "Middle"; "Leaf"] no_classes.

Definition example_class_id : type_info -> coh_class_id :=
  registered_class_id example_registry.

(** ** The member functions *)

Section ClassSpec.

(** [COH_CLASS_ID(T)]: the macro is defined outside this header; the
    engine is verified for any assignment of tokens to types. *)
Variable COH_CLASS_ID : type_info -> coh_class_id.

(** [sizeof(Object)], the base footprint of the universal root. *)
Variable sizeof_Object : N.

(** *** Collaborators declared outside this header *)

(** Modelled from the spec: [coh_throw_clone_not_supported], declared
    [extern] here and defined elsewhere, raises the "cloning not supported"
    condition naming the class it is given. *)
Definition coh_throw_clone_not_supported (ti : type_info) : run unit :=
  call (throw (CloneNotSupportedException ti)).

(** Modelled from the spec: the [_cast] of one directly declared interface,
    defined with the interface.  The interface is asked whether it supports
    the requested token; if so the answer is the pointer to its
    sub-object. *)
Definition interface_cast (Ik : type_info) (this : object)
    (pInfo : coh_class_id) : run void_ptr :=
  call (mret (if decide (COH_CLASS_ID Ik = pInfo)
              then static_cast Ik this else NULL)).

(** Modelled from the spec: [I::implements_chain::_icast], defined with
    [implements].  The directly declared interfaces are asked in turn and
    the first pointer that is not null is the answer. *)
Fixpoint _icast (I : implements) (this : object) (pInfo : coh_class_id)
    : run void_ptr :=
  match I with
  | [] => mret NULL
  | Ik :: I' =>
      p ← interface_cast Ik this pInfo;
      match p with
      | NULL => _icast I' this pInfo
      | _ => mret p
      end
  end.

(** Modelled from the spec: [Object::_cast], defined with the universal
    root.  The root answers its own token; after it the chain is
    exhausted and the answer is null. *)
Definition Object_cast (this : object) (pInfo : coh_class_id)
    : run void_ptr :=
  call (mret (if decide (COH_CLASS_ID Object_info = pInfo)
              then static_cast Object_info this else NULL)).

(** Modelled from the spec: [Object::sizeOf], defined with the universal
    root, where the recursion of the deep size bottoms out: the base
    footprint of the root. *)
Definition Object_sizeOf (fDeep : bool) : run size64_t :=
  call (mret (to_size64 sizeof_Object)).

(** *** The generated member functions *)

(** [class_spec::clone]. *)
Definition class_spec_clone (T : class_decl) : run TypedHandle :=
  call (coh_throw_clone_not_supported (typeid T);;
        mret (Handle NULL)).

(** [class_spec::sizeOf]; [inherited_sizeOf] is [inherited::sizeOf]. *)
Definition class_spec_sizeOf (T : class_decl)
    (inherited_sizeOf : bool -> run size64_t) (fDeep : bool)
    : run size64_t :=
  call (if fDeep
        then inherited_sizeOf true
        else mret (to_size64 (sizeof T))).

(** [class_spec::_cast]; [super_spec_cast] is [super_spec::_cast]. *)
Definition class_spec_cast (T : class_decl) (I : implements)
    (super_spec_cast : coh_class_id -> run void_ptr)
    (this : object) (pInfo : coh_class_id) : run void_ptr :=
  call (p ← (if decide (COH_CLASS_ID (typeid T) = pInfo)
             then mret (static_cast (typeid T) this)
             else _icast I this pInfo);
        match p with
        | NULL => super_spec_cast pInfo
        | _ => mret p
        end).

(** [class_spec::_getClassId]. *)
Definition class_spec_getClassId (T : class_decl) (this : object)
    : run coh_class_id :=
  call (mret (COH_CLASS_ID (typeid T))).

(** *** Member functions of a class of the hierarchy *)

(** [C::_cast] for a class [C]. *)
Fixpoint _cast (c : class) (this : object) (pInfo : coh_class_id)
    : run void_ptr :=
  match c with
  | Object => Object_cast this pInfo
  | class_spec T E Is => class_spec_cast T Is (_cast E this) this pInfo
  end.

(** [C::sizeOf] for a class [C]: the function [C] declares itself when it
    does, the generated one otherwise. *)
Fixpoint sizeOf (c : class) (fDeep : bool) : run size64_t :=
  match c with
  | Object => Object_sizeOf fDeep
  | class_spec T E _ =>
      match own_sizeOf T with
      | Some f => f (class_spec_sizeOf T (sizeOf E)) fDeep
      | None => class_spec_sizeOf T (sizeOf E) fDeep
      end
  end.

(** [T::clone] for a class defined through [class_spec]. *)
Definition clone (T : class_decl) : run TypedHandle :=
  match own_clone T with
  | Some f => f
  | None => class_spec_clone T
  end.

(** The order in which [_cast] asks the types of a hierarchy is the order of
    [known_types]: the class, its directly declared interfaces from first to
    last, then the parent in the same way.  [answering_type] is the first
    type in that order that has the token. *)
Definition answering_type (c : class) (pInfo : coh_class_id)
    : option type_info :=
  find (fun X => bool_decide (COH_CLASS_ID X = pInfo)) (known_types c).

(** The pointer to the sub-object of that type, or null when there is
    none. *)
Definition answer (o : option type_info) (this : object) : void_ptr :=
  match o with
  | Some X => static_cast X this
  | None => NULL
  end.

(** ** Runs *)

Lemma result_call {A : Type} (m : run A) : result (call m) = result m.
Proof. reflexivity. Qed.


Lemma bind_return {A B : Type} (m : run A) (k : A -> run B) (a : A) :
  result m = Return a ->
  m ≫= k = Run (result (k a)) (steps m + steps (k a)).
Proof. intros Hm. unfold mbind, run_bind, bind. now rewrite Hm. Qed.

Lemma run_eta {A : Type} (m : run A) : Run (result m) (steps m) = m.
Proof. now destruct m. Qed.

(** ** The scan of the directly declared interfaces *)

Lemma interface_cast_run (Ik : type_info) (this : object)
    (pInfo : coh_class_id) :
  interface_cast Ik this pInfo =
  Run (Return (if decide (COH_CLASS_ID Ik = pInfo)
               then static_cast Ik this else NULL)) 1.
Proof. reflexivity. Qed.

Lemma icast_cons (Ik : type_info) (I : implements) (this : object)
    (pInfo : coh_class_id) :
  _icast (Ik :: I) this pInfo =
  if decide (COH_CLASS_ID Ik = pInfo)
  then Run (Return (static_cast Ik this)) 1
  else Run (result (_icast I this pInfo)) (S (steps (_icast I this pInfo))).
Proof.
  cbn [_icast]. rewrite interface_cast_run.
  destruct (decide (COH_CLASS_ID Ik = pInfo)); reflexivity.
Qed.

(** The scan answers null exactly when no declared interface has the
    token. *)
Lemma icast_null (I : implements) (this : object) (pInfo : coh_class_id) :
  Forall (fun Ik => COH_CLASS_ID Ik <> pInfo) I ->
  _icast I this pInfo = Run (Return NULL) (length I).
Proof.
  induction 1 as [|Ik I Hk _ IH]; [reflexivity|].
  rewrite icast_cons, IH. now rewrite decide_False.
Qed.

(** Otherwise it answers the sub-object of the first declared interface that
    has the token. *)
Lemma icast_found (I : implements) (this : object) (pInfo : coh_class_id) :
  Exists (fun Ik => COH_CLASS_ID Ik = pInfo) I ->
  exists J : type_info,
    J ∈ I /\ COH_CLASS_ID J = pInfo /\
    result (_icast I this pInfo) = Return (static_cast J this).
Proof.
  induction I as [|Ik I IH]; intros Hex.
  - now apply Exists_nil in Hex.
  - rewrite icast_cons. destruct (decide (COH_CLASS_ID Ik = pInfo)) as [Hk|Hk].
    + exists Ik. split; [left|]. now split.
    + apply Exists_cons in Hex as [Hex|Hex]; [contradiction|].
      destruct (IH Hex) as (J & HJ & Htok & Hres).
      exists J. split; [now right|]. now split.
Qed.

Lemma icast_returns (I : implements) (this : object) (pInfo : coh_class_id) :
  exists p : void_ptr, result (_icast I this pInfo) = Return p.
Proof.
  induction I as [|Ik I [p IH]]; [now exists NULL|].
  rewrite icast_cons. destruct (decide (COH_CLASS_ID Ik = pInfo)).
  - now exists (static_cast Ik this).
  - now exists p.
Qed.


(** ** The capability query *)

(** The three cases of the generated [_cast]. *)
Lemma cast_own (T : class_decl) (E : class) (I : implements) (this : object) :
  _cast (class_spec T E I) this (COH_CLASS_ID (typeid T)) =
  Run (Return (static_cast (typeid T) this)) 1.
Proof.
  cbn [_cast]. unfold class_spec_cast.
  rewrite decide_True by reflexivity. reflexivity.
Qed.

Lemma cast_interface (T : class_decl) (E : class) (I : implements)
    (this : object) (pInfo : coh_class_id) (p : void_ptr) :
  COH_CLASS_ID (typeid T) <> pInfo ->
  result (_icast I this pInfo) = Return p -> p <> NULL ->
  _cast (class_spec T E I) this pInfo = call (_icast I this pInfo).
Proof.
  intros Hne Hres Hp. cbn [_cast]. unfold class_spec_cast.
  destruct p as [|J this']; [contradiction|].
  rewrite decide_False by assumption.
  rewrite (bind_return _ _ _ Hres). unfold call. cbn [result steps].
  rewrite Hres. f_equal. simpl. lia.
Qed.

Lemma cast_delegate (T : class_decl) (E : class) (I : implements)
    (this : object) (pInfo : coh_class_id) :
  COH_CLASS_ID (typeid T) <> pInfo ->
  result (_icast I this pInfo) = Return NULL ->
  _cast (class_spec T E I) this pInfo =
  Run (result (_cast E this pInfo))
      (S (steps (_icast I this pInfo) + steps (_cast E this pInfo))).
Proof.
  intros Hne Hres. cbn [_cast]. unfold class_spec_cast.
  rewrite decide_False by assumption.
  now rewrite (bind_return _ _ _ Hres).
Qed.

Lemma cast_own_eq (T : class_decl) (E : class) (I : implements)
    (this : object) (pInfo : coh_class_id) :
  COH_CLASS_ID (typeid T) = pInfo ->
  _cast (class_spec T E I) this pInfo =
  Run (Return (static_cast (typeid T) this)) 1.
Proof. intros <-. apply cast_own. Qed.



(** The token of the class itself or of one of its ancestors is answered
    with a pointer that is not null. *)
Lemma cast_class_of_chain (c : class) (this : object) (A : type_info) :
  A = class_info c \/ A ∈ ancestors c ->
  exists p : void_ptr,
    result (_cast c this (COH_CLASS_ID A)) = Return p /\ p <> NULL.
Proof.
  induction c as [|T E IH I]; intros HA.
  - destruct HA as [->|HA]; [|now apply elem_of_nil in HA].
    exists (static_cast Object_info this). split; [|discriminate].
    simpl. now rewrite decide_True.
  - destruct (decide (COH_CLASS_ID (typeid T) = COH_CLASS_ID A)) as [Heq|Hne].
    + rewrite (cast_own_eq _ _ _ _ _ Heq). eexists. split; [reflexivity|].
      discriminate.
    + destruct (icast_returns I this (COH_CLASS_ID A)) as [[|J this'] Hp].
      * rewrite (cast_delegate _ _ _ _ _ Hne Hp). cbn [result]. apply IH.
        destruct HA as [->|HA]; [contradiction|].
        cbn [ancestors] in HA. apply elem_of_cons in HA. exact HA.
      * rewrite (cast_interface _ _ _ _ _ _ Hne Hp) by discriminate.
        rewrite result_call. eexists. split; [exact Hp|discriminate].
Qed.

(** A token that no type of the hierarchy has walks the whole chain. *)
Lemma cast_unknown (c : class) (this : object) (pInfo : coh_class_id) :
  Forall (fun X => COH_CLASS_ID X <> pInfo) (known_types c) ->
  _cast c this pInfo =
  Run (Return NULL) (depth c + 1 + declared_interfaces c).
Proof.
  induction c as [|T E IH I]; intros Hall.
  - apply Forall_cons in Hall as [Hobj _]. simpl.
    unfold Object_cast. now rewrite decide_False.
  - cbn [known_types] in Hall. apply Forall_cons in Hall as [HT Hall].
    apply Forall_app in Hall as [HI HE].
    rewrite (cast_delegate _ _ _ _ _ HT) by now rewrite (icast_null _ _ _ HI).
    rewrite (icast_null _ _ _ HI), (IH HE). cbn [result steps depth
      declared_interfaces]. f_equal. lia.
Qed.

(** ** The size query *)



Lemma sizeOf_generated (T : class_decl) (E : class) (I : implements)
    (fDeep : bool) :
  own_sizeOf T = None ->
  sizeOf (class_spec T E I) fDeep =
  call (if fDeep then sizeOf E true else mret (to_size64 (sizeof T))).
Proof. intros Hown. cbn [sizeOf]. now rewrite Hown. Qed.

(** Along a chain of classes that rely on the generated [sizeOf], the deep
    size is the one of the class the chain starts from. *)
Lemma sizeOf_deep_derive (ds : list (class_decl * implements))
    (base : class) :
  Forall (fun d => own_sizeOf d.1 = None) ds ->
  sizeOf (derive ds base) true =
  Run (result (sizeOf base true)) (length ds + steps (sizeOf base true)).
Proof.
  induction 1 as [|[T I] ds HT _ IH]; cbn [derive foldr length].
  - symmetry. apply run_eta.
  - rewrite (sizeOf_generated _ _ _ _ HT). fold (derive ds base).
    rewrite IH. reflexivity.
Qed.

Lemma sizeOf_deep_generated (c : class) :
  generated_sizeOf c ->
  sizeOf c true = Run (Return (to_size64 sizeof_Object)) (S (depth c)).
Proof.
  induction c as [|T E IH I]; intros Hgen; [reflexivity|].
  destruct Hgen as [HT HE].
  rewrite (sizeOf_generated _ _ _ _ HT), (IH HE). reflexivity.
Qed.

(** ** Properties of the generated member functions *)

(** C1. On an instance of a class defined through [class_spec], the
    capability query with the class's own token returns a pointer that is not
    null and that designates the instance itself viewed as that exact class;
    this base case takes a single activation. *)
Theorem cast_own_class_id (T : class_decl) (E : class) (I : implements)
    (this : object) :
  result (_cast (class_spec T E I) this (COH_CLASS_ID (typeid T))) =
    Return (static_cast (typeid T) this) /\
  static_cast (typeid T) this <> NULL /\
  steps (_cast (class_spec T E I) this (COH_CLASS_ID (typeid T))) = 1%nat.
Proof. rewrite cast_own. repeat split. discriminate. Qed.

(** C2. When a class declares the interface [I1] directly, the query for the
    token of [I1] is answered by the scan of the class's own interfaces, with
    the pointer that scan produces and with no activation of the parent's
    [_cast], whatever the parent [E] is and whether or not an ancestor
    declares [I1] too. *)
Theorem cast_declared_interface_first (T : class_decl) (E : class)
    (I : implements) (I1 : type_info) (this : object) :
  I1 ∈ I ->
  COH_CLASS_ID I1 <> COH_CLASS_ID (typeid T) ->
  _cast (class_spec T E I) this (COH_CLASS_ID I1) =
    call (_icast I this (COH_CLASS_ID I1)) /\
  (exists J : type_info,
      J ∈ I /\ COH_CLASS_ID J = COH_CLASS_ID I1 /\
      result (_cast (class_spec T E I) this (COH_CLASS_ID I1)) =
        Return (static_cast J this)) /\
  ((forall J : type_info,
       J ∈ I -> COH_CLASS_ID J = COH_CLASS_ID I1 -> J = I1) ->
   result (_cast (class_spec T E I) this (COH_CLASS_ID I1)) =
     Return (static_cast I1 this)).
Proof.
  intros Hin Hne.
  assert (Hex : Exists (fun Ik => COH_CLASS_ID Ik = COH_CLASS_ID I1) I).
  { apply Exists_exists. now exists I1. }
  destruct (icast_found I this _ Hex) as (J & HJ & Htok & Hres).
  assert (Hrun : _cast (class_spec T E I) this (COH_CLASS_ID I1) =
                 call (_icast I this (COH_CLASS_ID I1))).
  { apply (cast_interface _ _ _ _ _ (static_cast J this)).
    - congruence.
    - exact Hres.
    - discriminate. }
  rewrite Hrun, result_call. split; [reflexivity|]. split.
  - exists J. auto.
  - intros Huniq. rewrite Hres. now rewrite (Huniq J HJ Htok).
Qed.

(** C3. On a class that does not override it, [clone] raises the "cloning
    not supported" condition naming [typeid(T)] for the class [T] itself, and
    returns no value to the caller. *)
Theorem clone_not_supported (T : class_decl) :
  own_clone T = None ->
  result (clone T) = Throw (CloneNotSupportedException (typeid T)) /\
  (forall h : TypedHandle, result (clone T) <> Return h).
Proof.
  intros Hown. unfold clone. rewrite Hown.
  split; [reflexivity|]. intros h. discriminate.
Qed.

(** C4. A token that is not the token of the class, of an interface declared
    by the class or by one of its ancestors, or of an ancestor, is answered
    by a returned null: the query returns normally and raises nothing. *)
Theorem cast_unknown_token_null (c : class) (this : object)
    (pInfo : coh_class_id) :
  Forall (fun X => COH_CLASS_ID X <> pInfo) (known_types c) ->
  result (_cast c this pInfo) = Return NULL /\
  (forall e : exception, result (_cast c this pInfo) <> Throw e).
Proof.
  intros Hall. rewrite (cast_unknown _ _ _ Hall).
  split; [reflexivity|]. intros e. discriminate.
Qed.

(** C5. The token of any ancestor of the class of an instance is answered
    with a pointer that is not null; and when the token is not the class's
    own and the scan of the direct interfaces answers null, the answer is the
    one of the parent's [_cast] for the same instance and the same token. *)
Theorem cast_ancestor_class_id (T : class_decl) (E : class) (I : implements)
    (this : object) (A : type_info) :
  A ∈ ancestors (class_spec T E I) ->
  (exists p : void_ptr,
      result (_cast (class_spec T E I) this (COH_CLASS_ID A)) = Return p /\
      p <> NULL) /\
  (forall pInfo : coh_class_id,
      COH_CLASS_ID (typeid T) <> pInfo ->
      result (_icast I this pInfo) = Return NULL ->
      result (_cast (class_spec T E I) this pInfo) =
        result (_cast E this pInfo)).
Proof.
  intros HA. split.
  - apply cast_class_of_chain. now right.
  - intros pInfo Hne Hnull. now rewrite (cast_delegate _ _ _ _ _ Hne Hnull).
Qed.


(** C7, as the code has it.  On a hierarchy root, middle, leaf whose root has
    a base footprint of 8: when middle and leaf rely on the generated
    [sizeOf], [sizeOf(true)] on a leaf returns 8, whatever the sizes of
    middle and leaf are; it returns 48 when middle and leaf each override
    [sizeOf] to add 16 and 24 to [super::sizeOf(true)]. *)
Theorem sizeOf_deep_three_levels (M L : class_decl) (Im Il : implements) :
  to_size64 sizeof_Object = 8 ->
  (own_sizeOf M = None -> own_sizeOf L = None ->
   result (sizeOf (class_spec L (class_spec M Object Im) Il) true) =
     Return 8) /\
  (own_sizeOf M = Some (adding 16) -> own_sizeOf L = Some (adding 24) ->
   result (sizeOf (class_spec L (class_spec M Object Im) Il) true) =
     Return 48).
Proof.
  intros Hroot. split; intros HM HL.
  - rewrite sizeOf_deep_generated by (repeat split; assumption).
    cbn [result]. now rewrite Hroot.
  - cbn [sizeOf]. rewrite HM, HL. unfold adding, class_spec_sizeOf.
    cbn. rewrite Hroot. reflexivity.
Qed.


(** C10. On a class that does not override [sizeOf], [sizeOf(true)] returns
    exactly what the parent's [sizeOf(true)] returns: neither [sizeof(T)] nor
    anything else is added for the class.  Hence along classes derived one
    from the other without an override the deep size stays the one of the
    class they start from, and with no override at all it is the root's. *)
Theorem sizeOf_deep_adds_nothing (T : class_decl) (E : class)
    (I : implements) :
  own_sizeOf T = None ->
  result (sizeOf (class_spec T E I) true) = result (sizeOf E true) /\
  (forall (ds : list (class_decl * implements)),
      Forall (fun d => own_sizeOf d.1 = None) ds ->
      result (sizeOf (derive ds (class_spec T E I)) true) =
        result (sizeOf E true)) /\
  (generated_sizeOf E ->
   result (sizeOf (class_spec T E I) true) =
     Return (to_size64 sizeof_Object)).
Proof.
  intros Hown.
  assert (Hdeep : result (sizeOf (class_spec T E I) true) =
                  result (sizeOf E true)).
  { now rewrite (sizeOf_generated _ _ _ _ Hown). }
  split; [exact Hdeep|]. split.
  - intros ds Hds. rewrite (sizeOf_deep_derive _ _ Hds). exact Hdeep.
  - intros HE. rewrite Hdeep, (sizeOf_deep_generated _ HE). reflexivity.
Qed.

(** ** The query as a search in the linearised hierarchy *)

Lemma find_app_first {A : Type} (f : A -> bool) (l l' : list A) :
  find f (l ++ l') =
  match find f l with
  | Some x => Some x
  | None => find f l'
  end.
Proof.
  induction l as [|a l IH]; [reflexivity|].
  cbn [app find]. now destruct (f a).
Qed.

Lemma icast_answer (I : implements) (this : object) (pInfo : coh_class_id) :
  result (_icast I this pInfo) =
  Return (answer (find (fun X => bool_decide (COH_CLASS_ID X = pInfo)) I)
            this).
Proof.
  induction I as [|Ik I IH]; [reflexivity|].
  rewrite icast_cons. cbn [find].
  destruct (decide (COH_CLASS_ID Ik = pInfo)) as [Hk|Hk].
  - now rewrite bool_decide_eq_true_2.
  - now rewrite bool_decide_eq_false_2.
Qed.

Lemma cast_answer (c : class) (this : object) (pInfo : coh_class_id) :
  result (_cast c this pInfo) = Return (answer (answering_type c pInfo) this).
Proof.
  unfold answering_type. induction c as [|T E IH I].
  - cbn. destruct (decide (COH_CLASS_ID Object_info = pInfo)) as [Hk|Hk].
    + now rewrite bool_decide_eq_true_2.
    + now rewrite bool_decide_eq_false_2.
  - cbn [known_types find].
    destruct (decide (COH_CLASS_ID (typeid T) = pInfo)) as [Heq|Hne].
    + rewrite (cast_own_eq _ _ _ _ _ Heq).
      now rewrite bool_decide_eq_true_2.
    + rewrite bool_decide_eq_false_2 by assumption.
      rewrite find_app_first.
      pose proof (icast_answer I this pInfo) as HI.
      destruct (find (fun X => bool_decide (COH_CLASS_ID X = pInfo)) I)
        as [J|].
      * rewrite (cast_interface _ _ _ _ _ _ Hne HI) by discriminate.
        now rewrite result_call.
      * rewrite (cast_delegate _ _ _ _ _ Hne HI). exact IH.
Qed.

Lemma answering_type_some (c : class) (pInfo : coh_class_id)
    (X : type_info) :
  answering_type c pInfo = Some X ->
  X ∈ known_types c /\ COH_CLASS_ID X = pInfo.
Proof.
  intros Hfind. apply find_some in Hfind as [Hin Htok].
  split; [now apply list_elem_of_In|].
  now apply bool_decide_eq_true in Htok.
Qed.

Lemma answering_type_none (c : class) (pInfo : coh_class_id) :
  answering_type c pInfo = None ->
  Forall (fun X => COH_CLASS_ID X <> pInfo) (known_types c).
Proof.
  intros Hfind. apply Forall_forall. intros X HX Htok.
  apply list_elem_of_In in HX.
  pose proof (find_none _ _ Hfind X HX) as Hf. cbn in Hf.
  now rewrite bool_decide_eq_true_2 in Hf.
Qed.

Lemma answering_type_known (c : class) (X : type_info) :
  X ∈ known_types c ->
  exists Y : type_info, answering_type c (COH_CLASS_ID X) = Some Y.
Proof.
  intros HX. destruct (answering_type c (COH_CLASS_ID X)) as [Y|] eqn:Hfind.
  - now exists Y.
  - apply answering_type_none in Hfind.
    rewrite Forall_forall in Hfind. now destruct (Hfind X HX).
Qed.

(** ** Further properties of the generated member functions *)

(** X1. The capability query is a first-match search: with the types of the
    hierarchy taken in the order class, directly declared interfaces,
    parent, the query returns the sub-object of the first type that has the
    requested token, and null when no type has it. *)
Theorem cast_first_match (c : class) (this : object) (pInfo : coh_class_id) :
  result (_cast c this pInfo) =
  Return (answer (find (fun X => bool_decide (COH_CLASS_ID X = pInfo))
                       (known_types c)) this).
Proof. apply cast_answer. Qed.

(** X2. A pointer the query returns, when it is not null, designates a
    sub-object of the queried instance itself, of a type that belongs to the
    hierarchy of its class and has the requested token. *)
Theorem cast_sound (c : class) (this : object) (pInfo : coh_class_id)
    (p : void_ptr) :
  result (_cast c this pInfo) = Return p ->
  p <> NULL ->
  exists X : type_info,
    p = static_cast X this /\ X ∈ known_types c /\ COH_CLASS_ID X = pInfo.
Proof.
  rewrite cast_answer. intros [= <-] Hp.
  destruct (answering_type c pInfo) as [X|] eqn:Hfind; [|contradiction].
  exists X. split; [reflexivity|]. now apply answering_type_some.
Qed.


(** X4. When the types of the hierarchy have pairwise distinct tokens, the
    query with the token of any of them returns the sub-object of exactly
    that type. *)
Theorem cast_exact (c : class) (this : object) (X : type_info) :
  (forall Y Z : type_info,
      Y ∈ known_types c -> Z ∈ known_types c ->
      COH_CLASS_ID Y = COH_CLASS_ID Z -> Y = Z) ->
  X ∈ known_types c ->
  result (_cast c this (COH_CLASS_ID X)) = Return (static_cast X this).
Proof.
  intros Hinj HX. rewrite cast_answer.
  destruct (answering_type_known c X HX) as [Y HY]. rewrite HY.
  apply answering_type_some in HY as [HYin HYtok].
  now rewrite (Hinj Y X HYin HX HYtok).
Qed.

(** X5. Deriving never removes a capability: a token that a class answers
    with a pointer that is not null is answered with a pointer that is not
    null by every class derived from it, over any number of levels. *)
Theorem cast_derived_keeps (ds : list (class_decl * implements))
    (base : class) (this : object) (pInfo : coh_class_id) (p : void_ptr) :
  result (_cast base this pInfo) = Return p ->
  p <> NULL ->
  exists q : void_ptr,
    result (_cast (derive ds base) this pInfo) = Return q /\ q <> NULL.
Proof.
  intros Hbase Hp. induction ds as [|[T I] ds (q & Hq & Hqn)].
  - now exists p.
  - cbn [derive foldr]. fold (derive ds base). cbn [fst snd].
    destruct (decide (COH_CLASS_ID (typeid T) = pInfo)) as [Heq|Hne].
    + rewrite (cast_own_eq _ _ _ _ _ Heq).
      eexists. split; [reflexivity|discriminate].
    + destruct (icast_returns I this pInfo) as [[|J this'] HI].
      * rewrite (cast_delegate _ _ _ _ _ Hne HI). now exists q.
      * rewrite (cast_interface _ _ _ _ _ _ Hne HI) by discriminate.
        rewrite result_call. eexists. split; [exact HI|discriminate].
Qed.


(** X7. What the query answers depends on the class of the instance only:
    two instances of one class get a null answer for the same tokens, and
    for the other tokens the sub-object of the same type, each in its own
    instance. *)
Theorem cast_same_for_instances (c : class) (this this' : object)
    (pInfo : coh_class_id) :
  (result (_cast c this pInfo) = Return NULL ->
   result (_cast c this' pInfo) = Return NULL) /\
  (forall X : type_info,
      result (_cast c this pInfo) = Return (static_cast X this) ->
      result (_cast c this' pInfo) = Return (static_cast X this')).
Proof.
  rewrite !cast_answer.
  destruct (answering_type c pInfo) as [Y|]; cbn [answer]; split.
  - discriminate.
  - now intros X [= ->].
  - reflexivity.
  - discriminate.
Qed.


End ClassSpec.

(** ** The registry of class identity tokens *)

Lemma no_classes_ok : registry_ok no_classes.
Proof.
  split; [reflexivity|]. split.
  - intros T k H. cbn in H. now rewrite lookup_empty in H.
  - intros T1 T2 k H. cbn in H. now rewrite lookup_empty in H.
Qed.

Lemma generate_ok (T : type_info) (r : registry) :
  registry_ok r -> registry_ok (COH_GENERATE_CLASS_ID T r).
Proof.
  intros (Hpos & Hrange & Hinj). unfold COH_GENERATE_CLASS_ID.
  destruct (tokens r !! T) as [k0|] eqn:HT;
    [exact (conj Hpos (conj Hrange Hinj))|].
  split; [cbn; lia|]. split; cbn [tokens next_token].
  - intros T' k. rewrite lookup_insert. case_decide.
    + intros [= <-]. lia.
    + intros Hk. specialize (Hrange _ _ Hk). lia.
  - intros T1 T2 k. rewrite !lookup_insert. repeat case_decide.
    + congruence.
    + intros [= <-] Hk. specialize (Hrange _ _ Hk). lia.
    + intros Hk [= <-]. specialize (Hrange _ _ Hk). lia.
    + apply Hinj.
Qed.

Lemma define_classes_ok (Ts : list type_info) (r : registry) :
  registry_ok r -> registry_ok (define_classes Ts r).
Proof.
  revert r. induction Ts as [|T Ts IH]; intros r Hr; [exact Hr|].
  apply IH, generate_ok, Hr.
Qed.

(** A token, once assigned, is what the table holds from then on. *)
Lemma generate_keeps (T T' : type_info) (r : registry) (k : coh_class_id) :
  tokens r !! T = Some k ->
  tokens (COH_GENERATE_CLASS_ID T' r) !! T = Some k.
Proof.
  intros Hk. unfold COH_GENERATE_CLASS_ID.
  destruct (tokens r !! T') eqn:HT'; [exact Hk|].
  cbn [tokens]. rewrite lookup_insert_ne; [exact Hk|congruence].
Qed.

Lemma define_classes_keeps (Ts : list type_info) (T : type_info)
    (r : registry) (k : coh_class_id) :
  tokens r !! T = Some k -> tokens (define_classes Ts r) !! T = Some k.
Proof.
  revert r. induction Ts as [|T' Ts IH]; intros r Hk; [exact Hk|].
  apply IH, generate_keeps, Hk.
Qed.

Lemma generate_assigns (T : type_info) (r : registry) :
  is_Some (tokens (COH_GENERATE_CLASS_ID T r) !! T).
Proof.
  unfold COH_GENERATE_CLASS_ID.
  destruct (tokens r !! T) eqn:HT; [now rewrite HT|].
  cbn [tokens]. rewrite lookup_insert_eq. eauto.
Qed.

Lemma define_classes_assigns (Ts : list type_info) (T : type_info)
    (r : registry) :
  T ∈ Ts -> is_Some (tokens (define_classes Ts r) !! T).
Proof.
  revert r. induction Ts as [|T' Ts IH]; intros r HT.
  - now apply elem_of_nil in HT.
  - apply elem_of_cons in HT as [->|HT]; [|now apply IH].
    destruct (generate_assigns T' r) as [k Hk].
    exists k. exact (define_classes_keeps Ts T' _ k Hk).
Qed.

(** C8. In a process whose classes [Ts] are defined one after the other, two
    distinct classes have distinct tokens; every instance of a class reports
    through [_getClassId] the one token of its class; and the token is the
    same after any further classes are defined. *)
Theorem class_id_unique_and_stable (Ts : list type_info)
    (C1 C2 : type_info) :
  C1 ∈ Ts -> C2 ∈ Ts ->
  (C1 <> C2 ->
   registered_class_id (define_classes Ts no_classes) C1 <>
   registered_class_id (define_classes Ts no_classes) C2) /\
  (forall (T : class_decl) (this : object),
      typeid T = C1 ->
      result (class_spec_getClassId
                (registered_class_id (define_classes Ts no_classes)) T this) =
        Return (registered_class_id (define_classes Ts no_classes) C1)) /\
  (forall (Ts' : list type_info) (T : class_decl) (this : object),
      typeid T = C1 ->
      result (class_spec_getClassId
                (registered_class_id
                   (define_classes Ts' (define_classes Ts no_classes)))
                T this) =
        Return (registered_class_id (define_classes Ts no_classes) C1)).
Proof.
  intros H1 H2.
  destruct (define_classes_assigns Ts C1 no_classes H1) as [k1 Hk1].
  destruct (define_classes_assigns Ts C2 no_classes H2) as [k2 Hk2].
  destruct (define_classes_ok Ts no_classes no_classes_ok) as (_ & _ & Hinj).
  split; [|split].
  - intros Hne. unfold registered_class_id.
    unfold type_info, coh_class_id in *. rewrite Hk1, Hk2. cbn.
    intros ->. apply Hne. exact (Hinj _ _ _ Hk1 Hk2).
  - intros T this <-. reflexivity.
  - intros Ts' T this <-. unfold class_spec_getClassId.
    rewrite result_call. cbn [mret run_ret ret result]. f_equal.
    unfold registered_class_id.
    pose proof (define_classes_keeps Ts' _ _ _ Hk1) as Hk1'.
    unfold type_info, coh_class_id in *. now rewrite Hk1', Hk1.
Qed.

(** ** The properties on the small hierarchy *)

Lemma cast_declared_interface_first_witness :
  "Comparable" ∈ ["Runnable"; "Comparable"] /\
  example_class_id "Comparable" <> example_class_id "Leaf" /\
  _cast example_class_id Leaf 7 (example_class_id "Comparable") =
    call (_icast example_class_id ["Runnable"; "Comparable"] 7
            (example_class_id "Comparable")).
Proof.
  assert (H1 : "Comparable" ∈ ["Runnable"; "Comparable"])
    by (repeat constructor).
  assert (H2 : example_class_id "Comparable" <> example_class_id "Leaf")
    by (vm_compute; discriminate).
  split; [exact H1|]. split; [exact H2|].
  exact (proj1 (cast_declared_interface_first example_class_id Leaf_decl
                  Middle ["Runnable"; "Comparable"] "Comparable" 7 H1 H2)).
Defined.

Lemma clone_not_supported_witness :
  own_clone Leaf_decl = None /\
  result (clone Leaf_decl) = Throw (CloneNotSupportedException "Leaf").
Proof.
  split; [reflexivity|].
  exact (proj1 (clone_not_supported Leaf_decl eq_refl)).
Defined.

Lemma cast_unknown_token_null_witness :
  Forall (fun X => example_class_id X <> 99) (known_types Leaf) /\
  result (_cast example_class_id Leaf 7 99) = Return NULL.
Proof.
  assert (H : Forall (fun X => example_class_id X <> 99) (known_types Leaf))
    by (repeat constructor; vm_compute; discriminate).
  split; [exact H|].
  exact (proj1 (cast_unknown_token_null example_class_id Leaf 7 99 H)).
Defined.

Lemma cast_ancestor_class_id_witness :
  "Middle" ∈ ancestors Leaf /\
  exists p : void_ptr,
    result (_cast example_class_id Leaf 7 (example_class_id "Middle")) =
      Return p /\
    p <> NULL.
Proof.
  assert (H : "Middle" ∈ ancestors Leaf) by (repeat constructor).
  split; [exact H|].
  exact (proj1 (cast_ancestor_class_id example_class_id Leaf_decl Middle
                  ["Runnable"; "Comparable"] 7 "Middle" H)).
Defined.


Lemma sizeOf_deep_three_levels_witness :
  to_size64 8 = 8 /\
  result (sizeOf 8 Leaf true) = Return 8 /\
  result (sizeOf 8 Leaf_adding true) = Return 48.
Proof.
  split; [reflexivity|]. split.
  - exact (proj1 (sizeOf_deep_three_levels 8 Middle_decl Leaf_decl
                    ["Comparable"] ["Runnable"; "Comparable"] eq_refl)
             eq_refl eq_refl).
  - exact (proj2 (sizeOf_deep_three_levels 8 Middle_adding_decl
                    Leaf_adding_decl ["Comparable"]
                    ["Runnable"; "Comparable"] eq_refl)
             eq_refl eq_refl).
Defined.

(** C7, as the spec states it, fails: with a root of 8 units, a middle class
    that adds 16 and a leaf class that adds 24, the generated [sizeOf(true)]
    on a leaf returns 8 and not 48. *)
Lemma sizeOf_deep_leaf_counterexample :
  to_size64 8 = 8 /\
  sizeof Middle_decl = 8 + 16 /\
  sizeof Leaf_decl = 8 + 16 + 24 /\
  result (sizeOf 8 Leaf true) = Return 8 /\
  result (sizeOf 8 Leaf true) <> Return 48.
Proof. repeat split. vm_compute. discriminate. Qed.

Lemma class_id_unique_and_stable_witness :
  "Leaf" ∈ [Object_info; "Comparable"; "Runnable"; "Middle"; "Leaf"] /\
  "Middle" ∈ [Object_info; "Comparable"; "Runnable"; "Middle"; "Leaf"] /\
  example_class_id "Leaf" <> example_class_id "Middle".
Proof.
  assert (H1 : "Leaf" ∈
            [Object_info; "Comparable"; "Runnable"; "Middle"; "Leaf"])
    by (repeat constructor).
  assert (H2 : "Middle" ∈
            [Object_info; "Comparable"; "Runnable"; "Middle"; "Leaf"])
    by (repeat constructor).
  split; [exact H1|]. split; [exact H2|].
  apply (proj1 (class_id_unique_and_stable _ "Leaf" "Middle" H1 H2)).
  discriminate.
Defined.


Lemma sizeOf_deep_adds_nothing_witness :
  own_sizeOf Leaf_decl = None /\
  result (sizeOf 8 Leaf true) = result (sizeOf 8 Middle true).
Proof.
  split; [reflexivity|].
  exact (proj1 (sizeOf_deep_adds_nothing 8 Leaf_decl Middle
                  ["Runnable"; "Comparable"] eq_refl)).
Defined.

(** ** The further properties on the small hierarchy *)

Lemma cast_sound_witness :
  result (_cast example_class_id Leaf 7 (example_class_id "Comparable")) =
    Return (static_cast "Comparable" 7) /\
  static_cast "Comparable" 7 <> NULL /\
  exists X : type_info,
    static_cast "Comparable" 7 = static_cast X 7 /\
    X ∈ known_types Leaf /\
    example_class_id X = example_class_id "Comparable".
Proof.
  assert (H1 : result (_cast example_class_id Leaf 7
                         (example_class_id "Comparable")) =
               Return (static_cast "Comparable" 7)) by reflexivity.
  assert (H2 : static_cast "Comparable" 7 <> NULL) by discriminate.
  split; [exact H1|]. split; [exact H2|].
  exact (cast_sound example_class_id Leaf 7 (example_class_id "Comparable")
           (static_cast "Comparable" 7) H1 H2).
Defined.


Lemma cast_exact_witness :
  (forall Y Z : type_info,
      Y ∈ known_types Leaf -> Z ∈ known_types Leaf ->
      example_class_id Y = example_class_id Z -> Y = Z) /\
  "Comparable" ∈ known_types Leaf /\
  result (_cast example_class_id Leaf 7 (example_class_id "Comparable")) =
    Return (static_cast "Comparable" 7).
Proof.
  assert (H1 : forall Y Z : type_info,
             Y ∈ known_types Leaf -> Z ∈ known_types Leaf ->
             example_class_id Y = example_class_id Z -> Y = Z).
  { intros Y Z HY HZ. apply list_elem_of_In in HY. apply list_elem_of_In in HZ.
    simpl in HY, HZ.
    repeat (destruct HY as [<-|HY]); try contradiction;
      repeat (destruct HZ as [<-|HZ]); try contradiction;
      intros Htok; try reflexivity; vm_compute in Htok; discriminate. }
  assert (H2 : "Comparable" ∈ known_types Leaf) by (repeat constructor).
  split; [exact H1|]. split; [exact H2|].
  exact (cast_exact example_class_id Leaf 7 "Comparable" H1 H2).
Defined.

Lemma cast_derived_keeps_witness :
  result (_cast example_class_id Middle 7 (example_class_id "Middle")) =
    Return (static_cast "Middle" 7) /\
  static_cast "Middle" 7 <> NULL /\
  exists q : void_ptr,
    result (_cast example_class_id Leaf 7 (example_class_id "Middle")) =
      Return q /\
    q <> NULL.
Proof.
  assert (H1 : result (_cast example_class_id Middle 7
                         (example_class_id "Middle")) =
               Return (static_cast "Middle" 7)) by reflexivity.
  assert (H2 : static_cast "Middle" 7 <> NULL) by discriminate.
  split; [exact H1|]. split; [exact H2|].
  exact (cast_derived_keeps example_class_id
           [(Leaf_decl, ["Runnable"; "Comparable"])] Middle 7
           (example_class_id "Middle") (static_cast "Middle" 7) H1 H2).
Defined.


Lemma cast_same_for_instances_witness :
  result (_cast example_class_id Leaf 7 (example_class_id "Middle")) =
    Return (static_cast "Middle" 7) /\
  result (_cast example_class_id Leaf 9 (example_class_id "Middle")) =
    Return (static_cast "Middle" 9).
Proof.
  assert (H : result (_cast example_class_id Leaf 7
                        (example_class_id "Middle")) =
              Return (static_cast "Middle" 7)) by reflexivity.
  split; [exact H|].
  exact (proj2 (cast_same_for_instances example_class_id Leaf 7 9
                  (example_class_id "Middle")) "Middle" H).
Defined.



